(** * Order service (order-service/main.go)

    A shallow embedding of the order-intake service: the [Order] record,
    the package-level [orders] table, the service locator [findService]
    and the handlers registered in [main], followed by the properties of
    the submission path.

    The program state is the [orders] map together with the lines written
    through the [log] package.  Go functions of the program are functions
    in a state monad over that state.  The two library calls whose results
    the handler consumes, [json.Decoder.Decode] and [uuid.GenerateUUID],
    are modelled in modules of their own ([json], [uuid]). *)

From Stdlib Require Import String Ascii List.
From stdpp Require Import gmap strings list fin_maps.

Open Scope string_scope.

(** ** Go errors: a value with an [Error] text *)

Module fmt.

Inductive error := Errorf (msg : string).

Definition Error (e : error) : string := let 'Errorf msg := e in msg.

End fmt.
Export fmt.

(** ** The data model *)

(** [type Order struct].  [ItemIDs] is a Go slice: [None] is the nil
    slice (encoded as JSON [null]), [Some l] a non-nil slice. *)
Record Order := mkOrder {
  ID : string;
  ItemIDs : option (list string);
  Status : string
}.

#[export] Instance Order_eq_dec : EqDecision Order.
Proof. solve_decision. Defined.

Definition zeroOrder : Order := mkOrder "" None "".

(** The assignments [o.ID = id] and [o.Status = s]. *)
Definition setID (id : string) (o : Order) : Order :=
  mkOrder id (ItemIDs o) (Status o).

Definition setStatus (s : string) (o : Order) : Order :=
  mkOrder (ID o) (ItemIDs o) s.

(** ** encoding/json, as far as [Decode(&newOrder)] goes *)

Module json.

#[local] Set Warnings "-register-all".

(** A JSON text, parsed. Object members keep their order and their
    duplicates; numbers keep their literal. *)
Inductive Value :=
| JNull
| JBool (b : bool)
| JNumber (lit : string)
| JString (s : string)
| JArray (elems : list Value)
| JObject (members : list (string * Value)).

(** What the decoder finds at the start of the request body: one JSON
    value, or none (empty body, syntax error), in which case [Decode]
    returns the error [err]. *)
Inductive Input :=
| Invalid (err : error)
| Valid (v : Value).

(** The word encoding/json uses for a value in an [UnmarshalTypeError]. *)
Definition kind (v : Value) : string :=
  match v with
  | JNull => "null"
  | JBool _ => "bool"
  | JNumber _ => "number"
  | JString _ => "string"
  | JArray _ => "array"
  | JObject _ => "object"
  end.

Definition typeError (v : Value) (field type : string) : error :=
  Errorf ("json: cannot unmarshal " +:+ kind v +:+ " into Go struct field Order."
          +:+ field +:+ " of type " +:+ type).

Definition valueError (v : Value) : error :=
  Errorf ("json: cannot unmarshal " +:+ kind v +:+ " into Go value of type main.Order").

(** Member names are matched to struct fields without regard to case.
    [foldName] maps a name to the least member of its case-folding class:
    ASCII letters to upper case, and the two non-ASCII runes that fold to
    an ASCII letter, U+017F (bytes C5 BF) to S and U+212A (bytes E2 84 AA)
    to K. *)
Definition upper (c : ascii) : ascii :=
  let n := nat_of_ascii c in
  if (97 <=? n)%nat && (n <=? 122)%nat then ascii_of_nat (n - 32) else c.

Fixpoint foldName (s : string) : string :=
  match s with
  | EmptyString => EmptyString
  | String "197" (String "191" rest) => String "S" (foldName rest)
  | String "226" (String "132" (String "170" rest)) => String "K" (foldName rest)
  | String c rest => String (upper c) (foldName rest)
  end.

Inductive field := FID | FItemIDs | FStatus.

#[export] Instance field_eq_dec : EqDecision field.
Proof. solve_decision. Defined.

(** The field of [Order] a member name selects, from the struct tags
    [json:"id"], [json:"item_ids"], [json:"status"]. *)
Definition fieldOf (name : string) : option field :=
  let k := foldName name in
  if decide (k = "ID") then Some FID
  else if decide (k = "ITEM_IDS") then Some FItemIDs
  else if decide (k = "STATUS") then Some FStatus
  else None.

(** The decoder's view of [newOrder] while it runs: the three fields, the
    contents of the [ItemIDs] backing array beyond the slice length
    ([spare]), and the first error saved. *)
Record state := mkState {
  sID : string;
  sItems : option (list string);
  spare : list string;
  sStatus : string;
  saved : option error
}.

Definition start : state := mkState "" None [] "" None.

(** [saveError]: only the first error is kept. *)
Definition saveError (e : option error) (st : state) : state :=
  match saved st with
  | Some _ => st
  | None => mkState (sID st) (sItems st) (spare st) (sStatus st) e
  end.

(** A value stored into a [string] that holds [cur]: a JSON string
    replaces it, [null] leaves it, anything else is a type error and
    leaves it. *)
Definition storeString (fname : string) (cur : string) (v : Value)
  : string * option error :=
  match v with
  | JString s => (s, None)
  | JNull => (cur, None)
  | _ => (cur, Some (typeError v fname "string"))
  end.

(** The elements of an array stored into the slots [old] of the backing
    array, slot by slot; a slot never written holds the empty string.
    Returns the new elements and the first type error met. *)
Fixpoint storeElems (old : list string) (vs : list Value)
  : list string * option error :=
  match vs with
  | [] => ([], None)
  | v :: vs' =>
      let '(x, e) := storeString "item_ids" (hd "" old) v in
      let '(xs, es) := storeElems (tl old) vs' in
      (x :: xs, match e with Some _ => e | None => es end)
  end.

(** A value stored into the [[]string] field: [null] makes the slice nil,
    an empty array makes a fresh empty slice, an array is decoded into
    the existing backing array and the slice cut to its length, anything
    else is a type error. *)
Definition storeItems (st : state) (v : Value) : state :=
  match v with
  | JNull => mkState (sID st) None [] (sStatus st) (saved st)
  | JArray [] => mkState (sID st) (Some []) [] (sStatus st) (saved st)
  | JArray vs =>
      let backing := (default [] (sItems st) ++ spare st)%list in
      let '(xs, e) := storeElems backing vs in
      saveError e
        (mkState (sID st) (Some xs) (drop (length vs) backing) (sStatus st) (saved st))
  | _ => saveError (Some (typeError v "item_ids" "[]string")) st
  end.

(** One object member: stored into the field its name selects, skipped
    when it selects none. *)
Definition member (st : state) (m : string * Value) : state :=
  let '(name, v) := m in
  match fieldOf name with
  | Some FID =>
      let '(s, e) := storeString "id" (sID st) v in
      saveError e (mkState s (sItems st) (spare st) (sStatus st) (saved st))
  | Some FItemIDs => storeItems st v
  | Some FStatus =>
      let '(s, e) := storeString "status" (sStatus st) v in
      saveError e (mkState (sID st) (sItems st) (spare st) s (saved st))
  | None => st
  end.

Definition members (ms : list (string * Value)) (st : state) : state :=
  foldl member st ms.

Definition finish (st : state) : error + Order :=
  match saved st with
  | Some e => inl e
  | None => inr (mkOrder (sID st) (sItems st) (sStatus st))
  end.

(** [json.NewDecoder(r.Body).Decode(&newOrder)] with [newOrder] the zero
    [Order]: the error, or the order as decoded. *)
Definition Decode (i : Input) : error + Order :=
  match i with
  | Invalid err => inl err
  | Valid JNull => inr zeroOrder
  | Valid (JObject ms) => finish (members ms start)
  | Valid v => inl (valueError v)
  end.

(** *** Shapes of payloads *)

(** The member selects field [f] of [Order]. *)
Definition selects (f : field) (m : string * Value) : bool :=
  bool_decide (fieldOf m.1 = Some f).

Definition isNull (v : Value) : bool :=
  match v with JNull => true | _ => false end.

Definition isStringOrNull (v : Value) : bool :=
  match v with JString _ | JNull => true | _ => false end.

(** The payload is an object whose item-list field is missing or null:
    no member selects [ItemIDs], or those that do are [null]. *)
Definition lacksItems (i : Input) : bool :=
  match i with
  | Valid (JObject ms) =>
      forallb (λ m, implb (selects FItemIDs m) (isNull m.2)) ms
  | _ => false
  end.

(** Two decoder states that agree on everything but [ID] and [Status]. *)
Definition agree (st1 st2 : state) : Prop :=
  sItems st1 = sItems st2 ∧ spare st1 = spare st2 ∧ saved st1 = saved st2.

(** Two decoded results that agree on everything but [ID] and [Status]. *)
Definition agreeDecoded (r1 r2 : error + Order) : Prop :=
  match r1, r2 with
  | inl e1, inl e2 => e1 = e2
  | inr o1, inr o2 => ItemIDs o1 = ItemIDs o2
  | _, _ => False
  end.

End json.

(** ** net/http, as far as the handlers use it *)

Module http.

Definition StatusOK : nat := 200.
Definition StatusCreated : nat := 201.
Definition StatusBadRequest : nat := 400.
Definition StatusInternalServerError : nat := 500.

(** What a handler writes as the body: nothing, a line of text
    ([http.Error] writes its message and a newline), or the JSON encoding
    of an order ([json.NewEncoder(w).Encode]). *)
Inductive Payload :=
| Empty
| Text (line : string)
| Encoded (o : Order).

Record Response := mkResponse {
  StatusCode : nat;
  ContentType : string;
  Body : Payload
}.

(** [http.Error(w, msg, code)]. *)
Definition Error (msg : string) (code : nat) : Response :=
  mkResponse code "text/plain; charset=utf-8" (Text msg).

End http.

(** ** github.com/hashicorp/go-uuid *)

Module uuid.

(** What one call of [uuid.GenerateUUID()] returns: the identifier and
    the error.  The library returns the empty identifier with every
    error. *)
Definition Result : Type := string * option error.

End uuid.

(** ** Program state and the monad of the program's functions *)

(** [var orders = make(map[string]Order)], and the lines main.go itself
    writes with [log.Println] and [log.Printf], oldest first.  The
    access lines of [middleware.Logger] are not part of [logged]. *)
Record World := mkWorld {
  orders : gmap string Order;
  logged : list string
}.

Definition M (A : Type) : Type := World → A * World.

#[export] Instance M_ret : MRet M := λ A a w, (a, w).

#[export] Instance M_bind : MBind M :=
  λ A B k m w, let '(a, w') := m w in k a w'.

(** [log.Println] / [log.Printf] with the line already formatted. *)
Definition logPrintf (line : string) : M unit :=
  λ w, (tt, mkWorld (orders w) (logged w ++ [line])).

(** [orders[key] = o]. *)
Definition setOrder (key : string) (o : Order) : M unit :=
  λ w, (tt, mkWorld (<[key := o]> (orders w)) (logged w)).

(** The map read [orders[id]], in its comma-ok form.  The service has no
    retrieval handler; this is the lookup one would serve. *)
Definition get (id : string) (w : World) : option Order := orders w !! id.

(** ** The functions of main.go *)

Definition registerServiceWithConsul : M unit :=
  logPrintf "Service registration skipped (no consul dependency)".

Definition findService (serviceName : string) : M (string * option error) :=
  if decide (serviceName = "food-catalog-service")
  then mret ("http://food-catalog-service:8080", None)
  else mret ("", Some (Errorf ("service " +:+ serviceName +:+ " not found"))).

(** [r.Get("/health", ...)]. *)
Definition getHealth : M http.Response :=
  mret (http.mkResponse http.StatusOK "" http.Empty).

(** The body of [r.Post("/orders", ...)], with the name it passes to
    [findService] as the parameter [catalog].  [body] is the request
    body and [generated] what [uuid.GenerateUUID()] returns when this
    request calls it. *)
Definition postOrdersVia (catalog : string)
    (body : json.Input) (generated : uuid.Result) : M http.Response :=
  match json.Decode body with
  | inl err => mret (http.Error (Error err) http.StatusBadRequest)
  | inr newOrder =>
      '(catalogAddr, err) ← findService catalog;
      match err with
      | Some err =>
          logPrintf ("Error finding catalog service: " +:+ Error err);;
          mret (http.Error "Food catalog service not available"
                  http.StatusInternalServerError)
      | None =>
          logPrintf ("Found food-catalog-service at: " +:+ catalogAddr
                     +:+ ". Would validate items here.");;
          let '(orderID, _) := generated in
          let newOrder := setID orderID newOrder in
          let newOrder := setStatus "received" newOrder in
          setOrder orderID newOrder;;
          mret (http.mkResponse http.StatusCreated "application/json"
                  (http.Encoded newOrder))
      end
  end.

(** The handler as registered: the catalog is looked up under its fixed
    name. *)
Definition postOrders : json.Input → uuid.Result → M http.Response :=
  postOrdersVia "food-catalog-service".

(** ** Requests handled one after another

    [serve] is the body of the handler of one of the two routes [main]
    registers; what the router answers to other requests and what
    [middleware.Logger] writes are not modelled.  [run] handles a
    sequence of requests, each to its end before the next begins.  It
    does not stand for handlers running at the same time: [net/http]
    runs each handler in a goroutine of its own and the assignment
    [orders[orderID] = newOrder] is not synchronised. *)

Inductive Request :=
| GetHealth
| PostOrders (body : json.Input) (generated : uuid.Result).

Definition serve (catalog : string) (r : Request) : M http.Response :=
  match r with
  | GetHealth => getHealth
  | PostOrders body generated => postOrdersVia catalog body generated
  end.

Fixpoint run (catalog : string) (rs : list Request) : M (list http.Response) :=
  match rs with
  | [] => mret []
  | r :: rs' =>
      resp ← serve catalog r;
      resps ← run catalog rs';
      mret (resp :: resps)
  end.

(** [main] starts serving with the table empty, whatever has been
    logged by then; [initial] is such a state with nothing logged. *)
Definition started (w : World) : Prop := orders w = ∅.

Definition initial : World := mkWorld ∅ [].

(** The identifiers carried by the [201 Created] responses, in order. *)
Definition assigned (resps : list http.Response) : list string :=
  flat_map (λ r, match http.Body r with
                 | http.Encoded o =>
                     if decide (http.StatusCode r = http.StatusCreated)
                     then [ID o] else []
                 | _ => []
                 end) resps.

Import json.

(** ** Notions the properties are stated with *)

Definition catalogName : string := "food-catalog-service".
Definition catalogURL : string := "http://food-catalog-service:8080".

(** The order a successful submission stores: the decoded order with the
    generated identifier and the initial status. *)
Definition received (orderID : string) (decoded : Order) : Order :=
  setStatus "received" (setID orderID decoded).

Definition foundLine : string :=
  "Found food-catalog-service at: " +:+ catalogURL
  +:+ ". Would validate items here.".

Definition notFoundLine (name : string) : string :=
  "Error finding catalog service: service " +:+ name +:+ " not found".

Definition created (o : Order) : http.Response :=
  http.mkResponse http.StatusCreated "application/json" (http.Encoded o).

(** The identifiers [GenerateUUID] returns to the submissions of a run,
    in order. *)
Definition generatedIDs (rs : list Request) : list string :=
  flat_map (λ r, match r with
                 | PostOrders _ generated => [generated.1]
                 | GetHealth => []
                 end) rs.

Definition allCreated (resps : list http.Response) : Prop :=
  Forall (λ resp, http.StatusCode resp = http.StatusCreated) resps.

(** Every order in the table has the status "received". *)
Definition allReceived (w : World) : Prop :=
  ∀ id o, get id w = Some o → Status o = "received".

(** The lifecycle of the specification: its four states and its three
    transitions. *)
Definition vocabulary : list string :=
  ["received"; "validated"; "confirmed"; "rejected"].

Inductive transition : string → string → Prop :=
| received_validated : transition "received" "validated"
| validated_confirmed : transition "validated" "confirmed"
| received_rejected : transition "received" "rejected".

(** [forward s s']: [s'] is [s] or comes after it in the graph. *)
Definition forward : string → string → Prop := rtc transition.

(** ** Sample inputs *)

(** The order posted by the test command of the README:
    [{"items":[{"id":"1","name":"Coffee","price":2.5}],"total":2.5}]. *)
Definition readmeBody : Input :=
  Valid (JObject
    [("items", JArray [JObject [("id", JString "1"); ("name", JString "Coffee");
                                ("price", JNumber "2.5")]]);
     ("total", JNumber "2.5")]).

(** [{"item_ids": ["item-1","item-2"]}], the specification's example. *)
Definition twoItems : Input :=
  Valid (JObject [("item_ids", JArray [JString "item-1"; JString "item-2"])]).

Definition oneItem : Input :=
  Valid (JObject [("item_ids", JArray [JString "item-3"])]).

Definition withOwnIDAndStatus : Input :=
  Valid (JObject [("id", JString "order-1");
                  ("item_ids", JArray [JString "item-1"; JString "item-2"]);
                  ("status", JString "confirmed")]).

(** Identifiers in the format of [GenerateUUID], and the result of a
    generation that failed. *)
Definition someUUID : uuid.Result :=
  ("3f2b9c1e-5d4a-4c7b-9e21-0a1b2c3d4e5f", None).

Definition otherUUID : uuid.Result :=
  ("a81d7f60-02c3-4b1e-8f5a-6d9e0c4b7a12", None).

Definition failedUUID : uuid.Result :=
  ("", Some (Errorf "failed to read random bytes: unexpected EOF")).

(** ** Properties as the specification words them *)

(** The validation gate as the specification words it: a payload whose
    item list is missing or null is answered with 400 and stores
    nothing. *)
Definition validationGate (catalog : string) (body : Input)
    (generated : uuid.Result) (w : World) : Prop :=
  lacksItems body = true →
  http.StatusCode (postOrdersVia catalog body generated w).1
    = http.StatusBadRequest
  ∧ orders (postOrdersVia catalog body generated w).2 = orders w.

(** A successful submission as the specification words it: 201, and a
    body that carries a non-empty identifier, the status "received" and
    the item list of the payload, equal to the order then found in the
    table. *)
Definition createdAsSpecified (catalog : string) (body : Input)
    (generated : uuid.Result) (w : World) : Prop :=
  http.StatusCode (postOrdersVia catalog body generated w).1
    = http.StatusCreated →
  ∃ decoded o,
    Decode body = inr decoded
    ∧ (postOrdersVia catalog body generated w).1 = created o
    ∧ get (ID o) (postOrdersVia catalog body generated w).2 = Some o
    ∧ ID o ≠ ""
    ∧ Status o = "received"
    ∧ ItemIDs o = ItemIDs decoded.

(** The round trip as the specification words it: the order a submission
    returns is what [get] gives for its identifier, then and after any
    later requests. *)
Definition retrievableEverAfter (catalog : string) (body : Input)
    (generated : uuid.Result) (later : list Request) (w : World) : Prop :=
  ∀ o, (postOrdersVia catalog body generated w).1 = created o →
    get (ID o) (postOrdersVia catalog body generated w).2 = Some o
    ∧ get (ID o)
        (run catalog later (postOrdersVia catalog body generated w).2).2
      = Some o.

(** Submissions handled at the same time: each handler runs from
    whatever state it finds.  [answers] gives the response of each
    request of [rws] from the state paired with it. *)
Definition answers (catalog : string) (rws : list (Request * World))
  : list http.Response :=
  (λ rw, (serve catalog rw.1 rw.2).1) <$> rws.

(** Uniqueness as the specification words it: when N submissions
    handled at the same time all succeed, the identifiers assigned form
    a set of N members, none of them empty and none among those assigned
    earlier. *)
Definition uniqueAmongConcurrent (catalog : string)
    (rws : list (Request * World)) (earlier : list string) : Prop :=
  allCreated (answers catalog rws) →
  size (list_to_set (assigned (answers catalog rws)) : gset string)
  = length rws
  ∧ Forall (λ id, id ≠ "" ∧ id ∉ earlier) (assigned (answers catalog rws)).

(** The frame of a submission as the specification words it: a 201
    adds exactly one entry and leaves every other identifier alone. *)
Definition addsOneEntry (catalog : string) (body : Input)
    (generated : uuid.Result) (w : World) : Prop :=
  http.StatusCode (postOrdersVia catalog body generated w).1
    = http.StatusCreated →
  size (orders (postOrdersVia catalog body generated w).2)
  = S (size (orders w))
  ∧ ∀ key, key ≠ generated.1 →
      orders (postOrdersVia catalog body generated w).2 !! key
      = orders w !! key.

(** ** Notions for the rest of main.go *)

Definition isSubmission (r : Request) : bool :=
  match r with PostOrders _ _ => true | GetHealth => false end.

(** The response comes from a branch of the submission handler that
    calls [log.Printf]: the one that ends in 201 or the one that ends in
    500. *)
Definition logs (resp : http.Response) : bool :=
  bool_decide (http.StatusCode resp = http.StatusCreated
               ∨ http.StatusCode resp = http.StatusInternalServerError).

(** The order of the last [201 Created] response that carries the
    identifier [id]. *)
Definition lastAssigned (id : string) (resps : list http.Response)
  : option Order :=
  last (flat_map (λ r, match http.Body r with
                       | http.Encoded o =>
                           if decide (http.StatusCode r = http.StatusCreated
                                      ∧ ID o = id)
                           then [o] else []
                       | _ => []
                       end) resps).

(** An object member fits the field of [Order] its name selects: a
    string or null for [ID] and [Status], null or an array of strings
    and nulls for [ItemIDs]; a member that selects no field fits. *)
Definition wellTyped (m : string * Value) : bool :=
  match fieldOf m.1 with
  | Some FID | Some FStatus => isStringOrNull m.2
  | Some FItemIDs =>
      match m.2 with
      | JNull => true
      | JArray vs => forallb isStringOrNull vs
      | _ => false
      end
  | None => true
  end.

(** In an object, the members that select [ID] or [Status] are strings
    or null. *)
Definition idAndStatusFit (i : Input) : bool :=
  match i with
  | Valid (JObject ms) =>
      forallb (λ m, implb (selects FID m || selects FStatus m)
                      (isStringOrNull m.2)) ms
  | _ => false
  end.

(** The bodies that decode: the value [null], and an object all of
    whose members fit. *)
Definition acceptable (i : Input) : bool :=
  match i with
  | Valid JNull => true
  | Valid (JObject ms) => forallb wellTyped ms
  | _ => false
  end.

(** [main] starts [registerServiceWithConsul] with [go] and goes on to
    serve: the registration runs at some point of the run, here after
    the requests [rs1] and before the requests [rs2]. *)
Definition runWithRegistration (catalog : string) (rs1 rs2 : list Request)
  : M (list http.Response) :=
  resps1 ← run catalog rs1;
  registerServiceWithConsul;;
  resps2 ← run catalog rs2;
  mret (resps1 ++ resps2)%list.

(** * Properties *)

(** ** The service locator *)

Lemma findService_known w :
  findService catalogName w = ((catalogURL, None), w).
Proof. reflexivity. Qed.

Lemma findService_unknown name w :
  name ≠ catalogName →
  findService name w
  = (("", Some (Errorf ("service " +:+ name +:+ " not found"))), w).
Proof.
  intros Hne. unfold findService.
  destruct (decide (name = "food-catalog-service")) as [->|_]; [|reflexivity].
  by destruct Hne.
Qed.

(** C6. For every service name, [findService] returns the catalog URL
    with no error exactly when the name is "food-catalog-service";
    for every other name it returns the empty address and an error whose
    text is "service <name> not found", which contains the name; and in
    either case the program state after the call is the state before
    it. *)
Theorem findService_total_and_pure (name : string) (w : World) :
  ((name = catalogName ∧ (findService name w).1 = (catalogURL, None))
   ∨ (name ≠ catalogName
      ∧ ∃ err, (findService name w).1 = ("", Some err)
               ∧ Error err = "service " +:+ name +:+ " not found"
               ∧ ∃ before after, Error err = before +:+ name +:+ after))
  ∧ ((findService name w).1 = (catalogURL, None) ↔ name = catalogName)
  ∧ (findService name w).2 = w.
Proof.
  destruct (decide (name = catalogName)) as [->|Hne].
  - rewrite findService_known. split; [by left|done].
  - rewrite (findService_unknown _ _ Hne). split; [right|split; [|done]].
    + split; [done|]. eexists. split; [done|]. split; [done|].
      by exists "service ", " not found".
    + split; [discriminate|done].
Qed.

(** ** The three outcomes of a submission *)

Section Submission.

Context (catalog : string) (body : json.Input) (generated : uuid.Result).
Context (w : World).

Lemma postOrdersVia_undecodable err :
  json.Decode body = inl err →
  postOrdersVia catalog body generated w
  = (http.Error (Error err) http.StatusBadRequest, w).
Proof. intros H. unfold postOrdersVia. by rewrite H. Qed.

Lemma postOrdersVia_unresolved decoded :
  json.Decode body = inr decoded →
  catalog ≠ catalogName →
  postOrdersVia catalog body generated w
  = (http.Error "Food catalog service not available"
       http.StatusInternalServerError,
     mkWorld (orders w) (logged w ++ [notFoundLine catalog])).
Proof.
  intros H Hne. unfold postOrdersVia. rewrite H.
  unfold mbind, M_bind. by rewrite (findService_unknown _ _ Hne).
Qed.

Lemma postOrdersVia_created decoded :
  json.Decode body = inr decoded →
  catalog = catalogName →
  postOrdersVia catalog body generated w
  = (http.mkResponse http.StatusCreated "application/json"
       (http.Encoded (received generated.1 decoded)),
     mkWorld (<[generated.1 := received generated.1 decoded]> (orders w))
       (logged w ++ [foundLine])).
Proof.
  intros H ->. unfold postOrdersVia. rewrite H.
  unfold mbind, M_bind. rewrite findService_known.
  by destruct generated.
Qed.

(** Every submission ends in exactly one of the three. *)
Lemma postOrdersVia_cases :
  (∃ err, json.Decode body = inl err
          ∧ postOrdersVia catalog body generated w
            = (http.Error (Error err) http.StatusBadRequest, w))
  ∨ (∃ decoded, json.Decode body = inr decoded ∧ catalog ≠ catalogName
          ∧ postOrdersVia catalog body generated w
            = (http.Error "Food catalog service not available"
                 http.StatusInternalServerError,
               mkWorld (orders w) (logged w ++ [notFoundLine catalog])))
  ∨ (∃ decoded, json.Decode body = inr decoded ∧ catalog = catalogName
          ∧ postOrdersVia catalog body generated w
            = (http.mkResponse http.StatusCreated "application/json"
                 (http.Encoded (received generated.1 decoded)),
               mkWorld (<[generated.1 := received generated.1 decoded]> (orders w))
                 (logged w ++ [foundLine]))).
Proof.
  destruct (json.Decode body) as [err|decoded] eqn:H.
  - left. eauto using postOrdersVia_undecodable.
  - destruct (decide (catalog = catalogName)) as [Heq|Hne].
    + right; right. eauto using postOrdersVia_created.
    + right; left. eauto using postOrdersVia_unresolved.
Qed.

End Submission.

(** ** What [Decode] leaves in [newOrder] *)

Module json_facts.
Import json.

Lemma saveError_items e st : sItems (saveError e st) = sItems st.
Proof. unfold saveError. by destruct (saved st). Qed.

Lemma saveError_spare e st : spare (saveError e st) = spare st.
Proof. unfold saveError. by destruct (saved st). Qed.

Lemma saveError_saved e st :
  saved (saveError e st) = match saved st with Some x => Some x | None => e end.
Proof. unfold saveError. by destruct (saved st) eqn:E. Qed.

Lemma saveError_None st : saveError None st = st.
Proof. unfold saveError. by destruct st as [? ? ? ? []]. Qed.

Lemma members_app ms1 ms2 st :
  members (ms1 ++ ms2) st = members ms2 (members ms1 st).
Proof. apply foldl_app. Qed.

Lemma members_cons m ms st : members (m :: ms) st = members ms (member st m).
Proof. reflexivity. Qed.

(** A member that does not select [ItemIDs] leaves the slice alone. *)
Lemma member_other_items st m :
  selects FItemIDs m = false →
  sItems (member st m) = sItems st ∧ spare (member st m) = spare st.
Proof.
  destruct m as [name v]. unfold selects, member. simpl. intros Hsel.
  destruct (fieldOf name) as [[]|] eqn:Hf; try done.
  - destruct (storeString "id" (sID st) v).
    by rewrite saveError_items, saveError_spare.
  - destruct (storeString "status" (sStatus st) v).
    by rewrite saveError_items, saveError_spare.
Qed.

Lemma members_other_items ms : ∀ st,
  forallb (λ m, negb (selects FItemIDs m)) ms = true →
  sItems (members ms st) = sItems st.
Proof.
  induction ms as [|m ms IH]; intros st Hall; [done|].
  simpl in Hall. apply andb_prop in Hall as [Hm Hms].
  rewrite members_cons, (IH _ Hms).
  apply member_other_items. by destruct (selects FItemIDs m).
Qed.

(** With the item list missing or null, the slice stays nil. *)
Lemma members_lacking ms : ∀ st,
  forallb (λ m, implb (selects FItemIDs m) (isNull m.2)) ms = true →
  sItems st = None → spare st = [] →
  sItems (members ms st) = None.
Proof.
  induction ms as [|m ms IH]; intros st Hall Hnil Hsp; [done|].
  simpl in Hall. apply andb_prop in Hall as [Hm Hms].
  rewrite members_cons. destruct (selects FItemIDs m) eqn:Hsel.
  - destruct m as [name v]. simpl in Hm. destruct v; try done.
    unfold selects in Hsel. apply bool_decide_eq_true in Hsel. simpl in Hsel.
    apply (IH _ Hms); unfold member; by rewrite Hsel.
  - destruct (member_other_items st m Hsel) as [Hi Hs].
    apply (IH _ Hms); congruence.
Qed.

Lemma Decode_lacking i o :
  lacksItems i = true → Decode i = inr o → ItemIDs o = None.
Proof.
  destruct i as [|[]]; try done. simpl. intros Hall.
  unfold finish. pose proof (members_lacking members0 start Hall eq_refl eq_refl).
  destruct (saved _); [done|]. by intros [= <-].
Qed.

(** An array of strings overwrites whatever the backing array held. *)
Lemma storeElems_strings l : ∀ old,
  storeElems old (JString <$> l) = (l, None).
Proof.
  induction l as [|x l IH]; intros old; [done|].
  simpl. by rewrite IH.
Qed.

Lemma storeItems_strings st l :
  sItems (storeItems st (JArray (JString <$> l))) = Some l.
Proof.
  destruct l as [|x l]; [done|].
  unfold storeItems. rewrite fmap_cons, <- fmap_cons.
  rewrite storeElems_strings. by rewrite saveError_items.
Qed.

(** The item list of the decoded order is the list of the last member
    that selects [ItemIDs], when that is an array of strings. *)
Lemma Decode_items ms1 name l ms2 o :
  fieldOf name = Some FItemIDs →
  forallb (λ m, negb (selects FItemIDs m)) ms2 = true →
  Decode (Valid (JObject (ms1 ++ (name, JArray (JString <$> l)) :: ms2))) = inr o →
  ItemIDs o = Some l.
Proof.
  intros Hf Hrest. simpl. rewrite members_app, members_cons.
  unfold finish.
  pose proof (members_other_items ms2
    (member (members ms1 start) (name, JArray (JString <$> l))) Hrest) as Hit.
  unfold member at 2 in Hit. rewrite Hf, storeItems_strings in Hit.
  destruct (saved _); [done|]. by intros [= <-].
Qed.

Lemma storeString_error fname cur1 cur2 v :
  (storeString fname cur1 v).2 = (storeString fname cur2 v).2.
Proof. by destruct v. Qed.

Lemma member_agree st1 st2 m :
  agree st1 st2 → agree (member st1 m) (member st2 m).
Proof.
  destruct st1 as [id1 it1 sp1 s1 e1], st2 as [id2 it2 sp2 s2 e2].
  intros (Hi & Hs & He). simpl in *. subst it2 sp2 e2.
  destruct m as [name v]. unfold member.
  destruct (fieldOf name) as [[]|]; [| |..].
  - pose proof (storeString_error "id" id1 id2 v) as Hv. simpl.
    destruct (storeString "id" id1 v), (storeString "id" id2 v).
    simpl in Hv. subst. unfold agree, saveError. by destruct e1.
  - unfold storeItems. destruct v as [| | | |[|v vs]|];
      try (unfold agree, saveError; simpl; by destruct e1).
    destruct (storeElems _ (v :: vs)).
    unfold agree, saveError; simpl; by destruct e1.
  - pose proof (storeString_error "status" s1 s2 v) as Hv. simpl.
    destruct (storeString "status" s1 v), (storeString "status" s2 v).
    simpl in Hv. subst. unfold agree, saveError. by destruct e1.
  - done.
Qed.

Lemma members_agree ms : ∀ st1 st2,
  agree st1 st2 → agree (members ms st1) (members ms st2).
Proof.
  induction ms as [|m ms IH]; intros st1 st2 H; [done|].
  rewrite !members_cons. by apply IH, member_agree.
Qed.

(** A string or null stored into [ID] or [Status] changes nothing else. *)
Lemma member_id_status st name v :
  fieldOf name = Some FID ∨ fieldOf name = Some FStatus →
  isStringOrNull v = true →
  agree (member st (name, v)) st.
Proof.
  intros [Hf|Hf] Hv; unfold member; rewrite Hf;
    destruct v; try done; simpl; by rewrite saveError_None.
Qed.

Lemma finish_agree st1 st2 :
  agree st1 st2 → agreeDecoded (finish st1) (finish st2).
Proof.
  intros (Hi & _ & He). unfold finish. rewrite He.
  destruct (saved st2); simpl; congruence.
Qed.

Lemma Decode_id_status ms1 name v ms2 :
  fieldOf name = Some FID ∨ fieldOf name = Some FStatus →
  isStringOrNull v = true →
  agreeDecoded (Decode (Valid (JObject (ms1 ++ (name, v) :: ms2))))
               (Decode (Valid (JObject (ms1 ++ ms2)))).
Proof.
  intros Hf Hv. simpl. rewrite !members_app, members_cons.
  by apply finish_agree, members_agree, member_id_status.
Qed.

End json_facts.

(** ** One submission *)

Import json_facts.

Example null_item_list_created :
  postOrders (Valid (JObject [("item_ids", JNull)])) someUUID initial
  = (created (mkOrder someUUID.1 None "received"),
     mkWorld {[ someUUID.1 := mkOrder someUUID.1 None "received" ]} [foundLine]).
Proof. reflexivity. Qed.

Example two_items_created :
  postOrders twoItems someUUID initial
  = (created (mkOrder someUUID.1 (Some ["item-1"; "item-2"]) "received"),
     mkWorld {[ someUUID.1 :=
                  mkOrder someUUID.1 (Some ["item-1"; "item-2"]) "received" ]}
       [foundLine]).
Proof. reflexivity. Qed.

Example readme_order_created :
  postOrders readmeBody someUUID initial
  = (created (mkOrder someUUID.1 None "received"),
     mkWorld {[ someUUID.1 := mkOrder someUUID.1 None "received" ]} [foundLine]).
Proof. reflexivity. Qed.

(** C1, as stated, fails.  The order posted by the README's test command
    has no "item_ids" member; it is answered with 201 and stored. *)
Lemma validationGate_fails_on_readme_order :
  ¬ validationGate catalogName readmeBody someUUID initial.
Proof.
  unfold validationGate. intros H.
  destruct (H eq_refl) as [Hcode _]. discriminate Hcode.
Qed.

(** [findService] fails only for names other than the catalog's. *)
Lemma findService_error name w addr err :
  (findService name w).1 = (addr, Some err) → name ≠ catalogName.
Proof. intros H ->. by rewrite findService_known in H. Qed.

(** C2. When the body decodes and [findService] returns an error for the
    name the handler looks up, the response is 500 with the text "Food
    catalog service not available", and the order table is the one
    before the request: every lookup gives what it gave. *)
Theorem dependency_gate
    (catalog : string) (body : Input) (generated : uuid.Result) (w : World)
    (decoded : Order) (addr : string) (err : error) :
  Decode body = inr decoded →
  (findService catalog w).1 = (addr, Some err) →
  (postOrdersVia catalog body generated w).1
    = http.Error "Food catalog service not available"
        http.StatusInternalServerError
  ∧ orders (postOrdersVia catalog body generated w).2 = orders w
  ∧ ∀ id, get id (postOrdersVia catalog body generated w).2 = get id w.
Proof.
  intros Hdec Hfind. apply findService_error in Hfind.
  by rewrite (postOrdersVia_unresolved _ _ _ _ _ Hdec Hfind).
Qed.

Lemma dependency_gate_witness :
  (postOrdersVia "payment-service" twoItems someUUID initial).1
    = http.Error "Food catalog service not available"
        http.StatusInternalServerError
  ∧ orders (postOrdersVia "payment-service" twoItems someUUID initial).2
    = orders initial
  ∧ ∀ id, get id (postOrdersVia "payment-service" twoItems someUUID initial).2
          = get id initial.
Proof.
  exact (dependency_gate "payment-service" twoItems someUUID initial
           (mkOrder "" (Some ["item-1"; "item-2"]) "") ""
           (Errorf "service payment-service not found") eq_refl eq_refl).
Defined.

(** The handler as registered looks up a name [findService] knows, so it
    never takes that branch. *)
Lemma postOrders_never_500 body generated w :
  http.StatusCode (postOrders body generated w).1
    ≠ http.StatusInternalServerError.
Proof.
  change (postOrders body generated w)
    with (postOrdersVia catalogName body generated w).
  destruct (postOrdersVia_cases catalogName body generated w)
    as [(e & _ & ->)|[(o & _ & Hne & _)|(o & _ & _ & ->)]]; done.
Qed.

Example order_created_with_blank_id :
  postOrders twoItems failedUUID initial
  = (created (mkOrder "" (Some ["item-1"; "item-2"]) "received"),
     mkWorld {[ "" := mkOrder "" (Some ["item-1"; "item-2"]) "received" ]}
       [foundLine]).
Proof. reflexivity. Qed.

(** C5, as stated, fails.  When [GenerateUUID] fails, the order is
    created all the same, and its identifier is the empty one. *)
Lemma createdAsSpecified_fails_on_failed_generation :
  ¬ createdAsSpecified catalogName twoItems failedUUID initial.
Proof.
  unfold createdAsSpecified. intros H.
  destruct (H eq_refl) as (decoded & o & _ & Hresp & _ & Hid & _).
  apply Hid. by injection Hresp as <-.
Qed.

(** C5, amended.  A submission answered with 201 decoded its body, and
    the response carries the order that is then in the table under its
    identifier: the identifier [GenerateUUID] returned (non-empty when
    that one is), the status "received", and the item list as decoded,
    which is the payload's list when that is an array of strings. *)
Theorem created_order
    (catalog : string) (body : Input) (generated : uuid.Result) (w : World) :
  http.StatusCode (postOrdersVia catalog body generated w).1
    = http.StatusCreated →
  ∃ decoded o,
    Decode body = inr decoded
    ∧ (postOrdersVia catalog body generated w).1 = created o
    ∧ get (ID o) (postOrdersVia catalog body generated w).2 = Some o
    ∧ ID o = generated.1
    ∧ (generated.1 ≠ "" → ID o ≠ "")
    ∧ Status o = "received"
    ∧ ItemIDs o = ItemIDs decoded
    ∧ ∀ ms1 name l ms2,
        body = Valid (JObject (ms1 ++ (name, JArray (JString <$> l)) :: ms2)) →
        fieldOf name = Some FItemIDs →
        forallb (λ m, negb (selects FItemIDs m)) ms2 = true →
        ItemIDs o = Some l.
Proof.
  destruct (postOrdersVia_cases catalog body generated w)
    as [(e & _ & ->)|[(o & _ & _ & ->)|(o & Hdec & _ & ->)]]; try done.
  intros _. exists o, (received generated.1 o).
  split; [done|]. split; [done|]. split; [apply lookup_insert_eq|].
  split; [done|]. split; [done|]. split; [done|]. split; [done|].
  intros ms1 name l ms2 -> Hf Hrest. simpl ItemIDs.
  by apply (Decode_items ms1 name l ms2).
Qed.

Lemma created_order_witness :
  ∃ decoded o,
    Decode twoItems = inr decoded
    ∧ (postOrdersVia catalogName twoItems someUUID initial).1 = created o
    ∧ get (ID o) (postOrdersVia catalogName twoItems someUUID initial).2 = Some o
    ∧ ID o = someUUID.1
    ∧ (someUUID.1 ≠ "" → ID o ≠ "")
    ∧ Status o = "received"
    ∧ ItemIDs o = ItemIDs decoded
    ∧ ∀ ms1 name l ms2,
        twoItems = Valid (JObject (ms1 ++ (name, JArray (JString <$> l)) :: ms2)) →
        fieldOf name = Some FItemIDs →
        forallb (λ m, negb (selects FItemIDs m)) ms2 = true →
        ItemIDs o = Some l.
Proof.
  exact (created_order catalogName twoItems someUUID initial eq_refl).
Defined.

(** Bodies that decode alike, up to [ID] and [Status], are handled
    alike. *)
(** A member that gives "id" as a number is not skipped: the body does
    not decode. *)
Example numeric_id_rejected :
  postOrders
    (Valid (JObject [("id", JNumber "7"); ("item_ids", JArray [JString "item-1"])]))
    someUUID initial
  = (http.Error
       "json: cannot unmarshal number into Go struct field Order.id of type string"
       http.StatusBadRequest,
     initial).
Proof. reflexivity. Qed.

Lemma postOrdersVia_agree catalog b1 b2 generated w :
  agreeDecoded (Decode b1) (Decode b2) →
  postOrdersVia catalog b1 generated w = postOrdersVia catalog b2 generated w.
Proof.
  unfold postOrdersVia.
  destruct (Decode b1) as [e1|[i1 l1 s1]], (Decode b2) as [e2|[i2 l2 s2]];
    simpl; try done.
  - by intros ->.
  - by intros ->.
Qed.

(** C8. Whatever the payload, an order that is stored and returned
    carries the generated identifier and the status "received"; and a
    member of the payload that gives "id" or "status" as a string (or as
    null) has no effect at all: the response and the state are those of
    the payload without it. *)
Theorem payload_id_and_status_ignored
    (catalog : string) (body : Input) (generated : uuid.Result) (w : World) :
  (http.StatusCode (postOrdersVia catalog body generated w).1
     = http.StatusCreated →
   ∃ o, (postOrdersVia catalog body generated w).1 = created o
        ∧ get generated.1 (postOrdersVia catalog body generated w).2 = Some o
        ∧ ID o = generated.1
        ∧ Status o = "received")
  ∧ (∀ ms1 name v ms2,
       body = Valid (JObject (ms1 ++ (name, v) :: ms2)) →
       fieldOf name = Some FID ∨ fieldOf name = Some FStatus →
       isStringOrNull v = true →
       postOrdersVia catalog body generated w
       = postOrdersVia catalog (Valid (JObject (ms1 ++ ms2))) generated w).
Proof.
  split.
  - destruct (postOrdersVia_cases catalog body generated w)
      as [(e & _ & ->)|[(o & _ & _ & ->)|(o & Hdec & _ & ->)]]; try done.
    intros _. exists (received generated.1 o).
    split; [done|]. split; [apply lookup_insert_eq|done].
  - intros ms1 name v ms2 -> Hf Hv.
    by apply postOrdersVia_agree, Decode_id_status.
Qed.

Lemma payload_id_and_status_ignored_witness :
  (∃ o, (postOrders withOwnIDAndStatus someUUID initial).1 = created o
        ∧ get someUUID.1 (postOrders withOwnIDAndStatus someUUID initial).2
          = Some o
        ∧ ID o = someUUID.1
        ∧ Status o = "received")
  ∧ postOrders withOwnIDAndStatus someUUID initial
    = postOrders
        (Valid (JObject
           [("id", JString "order-1");
            ("item_ids", JArray [JString "item-1"; JString "item-2"])]))
        someUUID initial.
Proof.
  pose proof (payload_id_and_status_ignored
                catalogName withOwnIDAndStatus someUUID initial) as [H1 H2].
  split.
  - exact (H1 eq_refl).
  - exact (H2 [("id", JString "order-1");
               ("item_ids", JArray [JString "item-1"; JString "item-2"])]
              "status" (JString "confirmed") []
              eq_refl (or_intror eq_refl) eq_refl).
Defined.

Example second_order_under_same_id :
  size (orders (postOrders twoItems failedUUID initial).2) = 1
  ∧ size (orders (postOrders oneItem failedUUID
                    (postOrders twoItems failedUUID initial).2).2) = 1.
Proof. split; reflexivity. Qed.

(** C9, as stated, fails.  A submission that is given an identifier
    already in the table is answered 201 and adds no entry: it replaces
    the one stored under that identifier. *)
Lemma addsOneEntry_fails_on_repeated_id :
  ¬ addsOneEntry catalogName oneItem failedUUID
      (postOrders twoItems failedUUID initial).2.
Proof.
  unfold addsOneEntry. intros H.
  destruct (H eq_refl) as [Hsize _].
  vm_compute in Hsize. discriminate Hsize.
Qed.

(** C9, amended.  A submission writes at most one key of the order
    table.  Answered with 201, it has put the order (the generated
    identifier, the decoded item list, the status "received") under
    the generated identifier: that key holds the order, every other key
    holds what it held, the keys are the old ones and that one, and the
    table has one entry more when the identifier was not a key and as
    many as before when it was.  When the body does not decode the
    answer is 400, when it decodes and [findService] fails the answer is
    500, and in both cases the table is the table before. *)
Theorem one_key_written
    (catalog : string) (body : Input) (generated : uuid.Result) (w : World) :
  let resp := (postOrdersVia catalog body generated w).1 in
  let after := orders (postOrdersVia catalog body generated w).2 in
  (http.StatusCode resp = http.StatusCreated →
   ∃ decoded,
     Decode body = inr decoded
     ∧ resp = created (mkOrder generated.1 (ItemIDs decoded) "received")
     ∧ after = <[generated.1 :=
                   mkOrder generated.1 (ItemIDs decoded) "received"]> (orders w)
     ∧ after !! generated.1
       = Some (mkOrder generated.1 (ItemIDs decoded) "received")
     ∧ (∀ key, key ≠ generated.1 → after !! key = orders w !! key)
     ∧ dom after = {[generated.1]} ∪ dom (orders w)
     ∧ size after = match orders w !! generated.1 with
                    | Some _ => size (orders w)
                    | None => S (size (orders w))
                    end)
  ∧ ((∃ err, Decode body = inl err) →
     http.StatusCode resp = http.StatusBadRequest ∧ after = orders w)
  ∧ ((∃ decoded addr err,
        Decode body = inr decoded
        ∧ (findService catalog w).1 = (addr, Some err)) →
     http.StatusCode resp = http.StatusInternalServerError
     ∧ after = orders w).
Proof.
  simpl. split; [|split].
  - destruct (postOrdersVia_cases catalog body generated w)
      as [(e & He & ->)|[(o & Ho & Hne & ->)|(o & Ho & Heq & ->)]];
      simpl; try done.
    intros _. exists o. split; [done|]. split; [done|]. split; [done|].
    split; [apply lookup_insert_eq|].
    split; [intros key Hkey; by apply lookup_insert_ne|].
    split; [apply dom_insert_L|].
    rewrite map_size_insert. by destruct (orders w !! generated.1).
  - intros [err He]. by rewrite (postOrdersVia_undecodable _ _ _ _ _ He).
  - intros (decoded & addr & err & Hdec & Hfind).
    apply findService_error in Hfind.
    by rewrite (postOrdersVia_unresolved _ _ _ _ _ Hdec Hfind).
Qed.

Lemma one_key_written_witness :
  (∃ decoded,
     Decode oneItem = inr decoded
     ∧ (postOrders oneItem failedUUID
          (postOrders twoItems failedUUID initial).2).1
       = created (mkOrder "" (ItemIDs decoded) "received")
     ∧ size (orders (postOrders oneItem failedUUID
                       (postOrders twoItems failedUUID initial).2).2)
       = size (orders (postOrders twoItems failedUUID initial).2))
  ∧ (http.StatusCode (postOrders (Valid (JArray [])) someUUID initial).1
       = http.StatusBadRequest
     ∧ orders (postOrders (Valid (JArray [])) someUUID initial).2
       = orders initial)
  ∧ (http.StatusCode
       (postOrdersVia "payment-service" twoItems someUUID initial).1
       = http.StatusInternalServerError
     ∧ orders (postOrdersVia "payment-service" twoItems someUUID initial).2
       = orders initial).
Proof.
  split; [|split].
  - destruct (proj1 (one_key_written catalogName oneItem failedUUID
                       (postOrders twoItems failedUUID initial).2) eq_refl)
      as (decoded & Hdec & Hresp & _ & _ & _ & _ & Hsize).
    exists decoded. split; [exact Hdec|]. split; [exact Hresp|exact Hsize].
  - apply (proj1 (proj2 (one_key_written catalogName (Valid (JArray []))
                           someUUID initial))).
    eexists. reflexivity.
  - apply (proj2 (proj2 (one_key_written "payment-service" twoItems
                           someUUID initial))).
    eexists _, _, _. split; reflexivity.
Defined.

(** C10. The error [GenerateUUID] returns is dropped: a submission
    handled with an identifier and an error is handled exactly as with
    that identifier and no error.  So when the body decodes, the
    registered handler answers 201 with the order that has the
    identifier that came with the error (whatever "id" the payload
    gave), the decoded item list and the status "received", and that
    order is in the table under that identifier. *)
Theorem generation_error_discarded
    (catalog : string) (body : Input) (orderID : string) (err : error)
    (w : World) :
  postOrdersVia catalog body (orderID, Some err) w
  = postOrdersVia catalog body (orderID, None) w
  ∧ ∀ decoded, Decode body = inr decoded →
      postOrders body (orderID, Some err) w
      = (created (mkOrder orderID (ItemIDs decoded) "received"),
         mkWorld (<[orderID := mkOrder orderID (ItemIDs decoded) "received"]>
                    (orders w))
           (logged w ++ [foundLine]))
      ∧ get orderID (postOrders body (orderID, Some err) w).2
        = Some (mkOrder orderID (ItemIDs decoded) "received").
Proof.
  split; [reflexivity|].
  intros decoded Hdec.
  pose proof (postOrdersVia_created catalogName body (orderID, Some err) w
                decoded Hdec eq_refl) as Hcreated.
  change (postOrders body (orderID, Some err) w)
    with (postOrdersVia catalogName body (orderID, Some err) w).
  rewrite Hcreated. split; [done|]. apply lookup_insert_eq.
Qed.

Lemma generation_error_discarded_witness :
  postOrders withOwnIDAndStatus failedUUID initial
  = (created (mkOrder "" (Some ["item-1"; "item-2"]) "received"),
     mkWorld (<["" := mkOrder "" (Some ["item-1"; "item-2"]) "received"]>
                (orders initial))
       (logged initial ++ [foundLine]))
  ∧ get "" (postOrders withOwnIDAndStatus failedUUID initial).2
    = Some (mkOrder "" (Some ["item-1"; "item-2"]) "received").
Proof.
  exact (proj2 (generation_error_discarded catalogName withOwnIDAndStatus ""
                  (Errorf "failed to read random bytes: unexpected EOF") initial)
           (mkOrder "order-1" (Some ["item-1"; "item-2"]) "confirmed") eq_refl).
Defined.

(** ** Sequences of requests *)

Section Sequences.

Context (catalog : string).

Lemma run_cons_world r rs w :
  (run catalog (r :: rs) w).2 = (run catalog rs (serve catalog r w).2).2.
Proof.
  simpl. unfold mbind, M_bind.
  destruct (serve catalog r w) as [resp w1]. simpl.
  by destruct (run catalog rs w1).
Qed.

Lemma run_cons_responses r rs w :
  (run catalog (r :: rs) w).1
  = (serve catalog r w).1 :: (run catalog rs (serve catalog r w).2).1.
Proof.
  simpl. unfold mbind, M_bind.
  destruct (serve catalog r w) as [resp w1]. simpl.
  by destruct (run catalog rs w1).
Qed.

Lemma run_app_world rs1 rs2 w :
  (run catalog (rs1 ++ rs2) w).2
  = (run catalog rs2 (run catalog rs1 w).2).2.
Proof.
  revert w. induction rs1 as [|r rs1 IH]; intros w; [done|].
  by rewrite <- app_comm_cons, !run_cons_world, IH.
Qed.

(** What one request does to the table: nothing, or one order put under
    the identifier generated for it, which the 201 response carries. *)
Lemma serve_table r w :
  (orders (serve catalog r w).2 = orders w
   ∧ http.StatusCode (serve catalog r w).1 ≠ http.StatusCreated)
  ∨ (∃ body generated decoded,
       r = PostOrders body generated
       ∧ (serve catalog r w).1 = created (received generated.1 decoded)
       ∧ orders (serve catalog r w).2
         = <[generated.1 := received generated.1 decoded]> (orders w)).
Proof.
  destruct r as [|body generated]; [by left|]. simpl.
  destruct (postOrdersVia_cases catalog body generated w)
    as [(e & _ & ->)|[(o & _ & _ & ->)|(o & _ & _ & ->)]].
  - by left.
  - by left.
  - right. by exists body, generated, o.
Qed.

Lemma assigned_cons resp resps :
  assigned (resp :: resps)
  = (match http.Body resp with
     | http.Encoded o =>
         if decide (http.StatusCode resp = http.StatusCreated)
         then [ID o] else []
     | _ => []
     end ++ assigned resps)%list.
Proof. reflexivity. Qed.

Lemma assigned_not_created resp resps :
  http.StatusCode resp ≠ http.StatusCreated →
  assigned (resp :: resps) = assigned resps.
Proof.
  intros H. rewrite assigned_cons.
  destruct (http.Body resp); try done. by rewrite decide_False.
Qed.

(** No request removes an entry of the table. *)
Lemma serve_keeps id r w :
  is_Some (get id w) → is_Some (get id (serve catalog r w).2).
Proof.
  unfold get. intros H.
  destruct (serve_table r w) as [[-> _]|(b & g & d & _ & _ & ->)]; [done|].
  rewrite lookup_insert. by case_decide.
Qed.

Lemma run_keeps id rs : ∀ w,
  is_Some (get id w) → is_Some (get id (run catalog rs w).2).
Proof.
  induction rs as [|r rs IH]; intros w H; [done|].
  rewrite run_cons_world. by apply IH, serve_keeps.
Qed.

(** An entry stays as it is while no response assigns its key again. *)
Lemma run_keeps_value id o rs : ∀ w,
  get id w = Some o →
  id ∉ assigned (run catalog rs w).1 →
  get id (run catalog rs w).2 = Some o.
Proof.
  induction rs as [|r rs IH]; intros w Hget Hid; [done|].
  rewrite run_cons_world. rewrite run_cons_responses in Hid.
  destruct (serve_table r w) as [[Heq Hcode]|(b & g & d & _ & Hresp & Heq)].
  - rewrite (assigned_not_created _ _ Hcode) in Hid.
    apply IH; [|done]. unfold get. by rewrite Heq.
  - rewrite Hresp in Hid. rewrite assigned_cons in Hid. simpl in Hid.
    apply not_elem_of_cons in Hid as [Hne Hid].
    apply IH; [|done]. unfold get. rewrite Heq.
    by rewrite lookup_insert_ne.
Qed.

Lemma started_allReceived w : started w → allReceived w.
Proof. intros Hw id o. unfold get. by rewrite Hw, lookup_empty. Qed.

Lemma serve_allReceived r w :
  allReceived w → allReceived (serve catalog r w).2.
Proof.
  intros Hinv id o. unfold get.
  destruct (serve_table r w) as [[-> _]|(b & g & d & _ & _ & ->)];
    [apply Hinv|].
  rewrite lookup_insert. case_decide; [by intros [= <-]|apply Hinv].
Qed.

Lemma run_allReceived rs : ∀ w,
  allReceived w → allReceived (run catalog rs w).2.
Proof.
  induction rs as [|r rs IH]; intros w H; [done|].
  rewrite run_cons_world. by apply IH, serve_allReceived.
Qed.

End Sequences.

(** ** Retrieval after submission *)

(** C3, as stated, fails.  Two submissions for which [GenerateUUID]
    fails are both stored under the empty identifier, and the second
    replaces the first. *)
Lemma retrievableEverAfter_fails_on_repeated_id :
  ¬ retrievableEverAfter catalogName twoItems failedUUID
      [PostOrders oneItem failedUUID] initial.
Proof.
  unfold retrievableEverAfter. intros H.
  destruct (H _ eq_refl) as [_ Hlater].
  vm_compute in Hlater. discriminate Hlater.
Qed.

(** C3, amended.  The order a submission returns is what [get] gives for
    its identifier right after; no later request removes the entry; and
    [get] keeps giving that order for as long as no later response
    assigns the same identifier again. *)
Theorem round_trip
    (catalog : string) (body : Input) (generated : uuid.Result)
    (later : list Request) (w : World) (o : Order) :
  (postOrdersVia catalog body generated w).1 = created o →
  let w1 := (postOrdersVia catalog body generated w).2 in
  get (ID o) w1 = Some o
  ∧ is_Some (get (ID o) (run catalog later w1).2)
  ∧ (ID o ∉ assigned (run catalog later w1).1 →
     get (ID o) (run catalog later w1).2 = Some o).
Proof.
  intros Hresp w1.
  assert (get (ID o) w1 = Some o) as Hget.
  { subst w1.
    destruct (postOrdersVia_cases catalog body generated w)
      as [(e & _ & Heq)|[(d & _ & _ & Heq)|(d & _ & _ & Heq)]];
      rewrite Heq in Hresp |- *; try done.
    injection Hresp as <-. apply lookup_insert_eq. }
  split; [done|]. split.
  - apply run_keeps. by rewrite Hget.
  - by apply run_keeps_value.
Qed.

Lemma round_trip_witness :
  let w1 := (postOrdersVia catalogName twoItems someUUID initial).2 in
  let o := mkOrder someUUID.1 (Some ["item-1"; "item-2"]) "received" in
  let later := [GetHealth; PostOrders oneItem otherUUID;
                PostOrders (Invalid (Errorf "EOF")) someUUID] in
  get (ID o) w1 = Some o
  ∧ is_Some (get (ID o) (run catalogName later w1).2)
  ∧ get (ID o) (run catalogName later w1).2 = Some o.
Proof.
  intros w1 o later.
  pose proof (round_trip catalogName twoItems someUUID later initial o eq_refl)
    as (H1 & H2 & H3).
  split; [exact H1|]. split; [exact H2|].
  apply H3. vm_compute. intros Hin.
  apply list_elem_of_singleton in Hin. discriminate Hin.
Defined.

(** ** Submissions answered with 201 *)

Lemma serve_created catalog r w :
  http.StatusCode (serve catalog r w).1 = http.StatusCreated →
  catalog = catalogName
  ∧ ∃ body generated decoded,
      r = PostOrders body generated ∧ Decode body = inr decoded.
Proof.
  destruct r as [|body generated]; [done|]. simpl.
  destruct (postOrdersVia_cases catalog body generated w)
    as [(e & _ & ->)|[(o & _ & _ & ->)|(o & Hdec & Hcat & _)]]; try done.
  intros _. split; [done|]. by exists body, generated, o.
Qed.

(** ** The status of stored orders *)

(** C7. In every table the service reaches from an empty one, every
    order has a status of the vocabulary, namely "received"; an
    identifier in the table stays in it, and the status found under it
    later is forward of the status found earlier (it is the same one);
    and a request, from any state, leaves under each identifier the
    order that was there or one with status "received". *)
Theorem statuses_within_lifecycle
    (catalog : string) (rs1 rs2 : list Request) (w0 : World) :
  started w0 →
  let w1 := (run catalog rs1 w0).2 in
  let w2 := (run catalog rs2 w1).2 in
  (∀ id o, get id w1 = Some o →
     Status o = "received" ∧ Status o ∈ vocabulary)
  ∧ (∀ id o1, get id w1 = Some o1 →
       ∃ o2, get id w2 = Some o2
             ∧ Status o2 = Status o1
             ∧ forward (Status o1) (Status o2))
  ∧ (∀ r w id o, get id (serve catalog r w).2 = Some o →
       get id w = Some o ∨ Status o = "received").
Proof.
  intros Hw0 w1 w2.
  assert (allReceived w1) as H1
    by by apply run_allReceived, started_allReceived.
  assert (allReceived w2) as H2 by by apply run_allReceived.
  split; [|split].
  - intros id o Hget. rewrite (H1 _ _ Hget). split; [done|]. by left.
  - intros id o1 Hget.
    destruct (run_keeps catalog id rs2 w1) as [o2 Hget2]; [by rewrite Hget|].
    exists o2. split; [done|].
    rewrite (H1 _ _ Hget), (H2 _ _ Hget2). split; [done|]. apply rtc_refl.
  - intros r w id o. unfold get.
    destruct (serve_table catalog r w) as [[-> _]|(b & g & d & _ & _ & ->)];
      [by left|].
    rewrite lookup_insert. case_decide; [|by left].
    intros [= <-]. by right.
Qed.

Lemma statuses_within_lifecycle_witness :
  let w1 := (run catalogName [PostOrders twoItems someUUID] initial).2 in
  let w2 := (run catalogName [GetHealth; PostOrders oneItem someUUID] w1).2 in
  let o1 := mkOrder someUUID.1 (Some ["item-1"; "item-2"]) "received" in
  (Status o1 = "received" ∧ Status o1 ∈ vocabulary)
  ∧ (∃ o2, get someUUID.1 w2 = Some o2
           ∧ Status o2 = Status o1
           ∧ forward (Status o1) (Status o2))
  ∧ (get someUUID.1 initial = Some o1 ∨ Status o1 = "received").
Proof.
  intros w1 w2 o1.
  pose proof (statuses_within_lifecycle catalogName
                [PostOrders twoItems someUUID]
                [GetHealth; PostOrders oneItem someUUID] initial eq_refl)
    as (H1 & H2 & H3).
  split; [exact (H1 someUUID.1 o1 eq_refl)|].
  split; [exact (H2 someUUID.1 o1 eq_refl)|].
  exact (H3 (PostOrders twoItems someUUID) initial someUUID.1 o1 eq_refl).
Defined.

(** * Further properties of main.go *)

(** ** The service locator, continued *)

Lemma length_append (s t : string) :
  String.length (s +:+ t) = String.length s + String.length t.
Proof. induction s as [|c s IH]; simpl; [done|]. by rewrite IH. Qed.

Lemma append_inv_tail (t : string) : ∀ s1 s2 : string,
  s1 +:+ t = s2 +:+ t → s1 = s2.
Proof.
  induction s1 as [|c1 s1 IH]; intros [|c2 s2] H.
  - done.
  - apply (f_equal String.length) in H. rewrite !length_append in H.
    simpl in H. lia.
  - apply (f_equal String.length) in H. rewrite !length_append in H.
    simpl in H. lia.
  - change (String c1 (s1 +:+ t) = String c2 (s2 +:+ t)) in H.
    injection H as -> H. f_equal. by apply IH.
Qed.

(** The result of [findService] identifies the name it was asked for:
    two names with the same result are the same name.  And the address
    is empty exactly when there is an error. *)
Theorem findService_result_identifies_name
    (name1 name2 : string) (w1 w2 : World) :
  ((findService name1 w1).1 = (findService name2 w2).1 → name1 = name2)
  ∧ ((findService name1 w1).1.1 = "" ↔ (findService name1 w1).1.2 ≠ None).
Proof.
  split.
  - destruct (decide (name1 = catalogName)) as [->|H1],
      (decide (name2 = catalogName)) as [->|H2];
      rewrite ?findService_known, ?(findService_unknown _ _ H1),
        ?(findService_unknown _ _ H2); simpl; try done.
    intros [= H].
    change (name1 +:+ " not found" = name2 +:+ " not found") in H.
    by apply append_inv_tail in H.
  - destruct (decide (name1 = catalogName)) as [->|H1];
      rewrite ?findService_known, ?(findService_unknown _ _ H1); simpl.
    + split; [discriminate|]. by intros H.
    + split; [discriminate|done].
Qed.

(** ** Responses do not depend on the state *)

Lemma run_app_responses catalog rs1 rs2 w :
  (run catalog (rs1 ++ rs2) w).1
  = ((run catalog rs1 w).1 ++ (run catalog rs2 (run catalog rs1 w).2).1)%list.
Proof.
  revert w. induction rs1 as [|r rs1 IH]; intros w; [done|].
  rewrite <- app_comm_cons, !run_cons_responses, run_cons_world, IH.
  by rewrite app_comm_cons.
Qed.

Lemma serve_response_stateless catalog r w w' :
  (serve catalog r w).1 = (serve catalog r w').1.
Proof.
  destruct r as [|body generated]; [done|]. simpl.
  destruct (postOrdersVia_cases catalog body generated w)
    as [(e & He & ->)|[(o & Ho & Hcat & ->)|(o & Ho & Hcat & ->)]].
  - by rewrite (postOrdersVia_undecodable _ _ _ _ _ He).
  - by rewrite (postOrdersVia_unresolved _ _ _ _ _ Ho Hcat).
  - by rewrite (postOrdersVia_created _ _ _ _ _ Ho Hcat).
Qed.

(** What the service answers never depends on what it has stored or
    logged: the responses to a run of requests, from any state, are the
    responses each request gets on its own in any other state. *)
Theorem responses_ignore_state
    (catalog : string) (rs : list Request) (w w0 : World) :
  (run catalog rs w).1 = (λ r, (serve catalog r w0).1) <$> rs.
Proof.
  revert w. induction rs as [|r rs IH]; intros w; [done|].
  rewrite run_cons_responses, fmap_cons, IH. f_equal.
  apply serve_response_stateless.
Qed.

(** ** Health probes *)

Lemma submission_not_200 catalog body generated w :
  http.StatusCode (postOrdersVia catalog body generated w).1 ≠ http.StatusOK.
Proof.
  destruct (postOrdersVia_cases catalog body generated w)
    as [(e & _ & ->)|[(o & _ & _ & ->)|(o & _ & _ & ->)]]; done.
Qed.

(** Health probes are transparent for the orders: each is answered 200
    with no body, and a run with the probes left out ends with the same
    order table and gives the same responses to the other requests,
    which are the responses whose code is not 200. *)
Theorem health_probes_transparent
    (catalog : string) (rs : list Request) (w : World) :
  orders (run catalog (List.filter isSubmission rs) w).2
  = orders (run catalog rs w).2
  ∧ (run catalog (List.filter isSubmission rs) w).1
    = List.filter (λ resp, negb (bool_decide
                                   (http.StatusCode resp = http.StatusOK)))
        (run catalog rs w).1
  ∧ Forall (λ resp, http.StatusCode resp = http.StatusOK →
                    resp = http.mkResponse http.StatusOK "" http.Empty)
      (run catalog rs w).1.
Proof.
  revert w. induction rs as [|r rs IH]; intros w.
  - split; [done|]. split; [done|]. constructor.
  - destruct r as [|body generated].
    + simpl List.filter at 1 2. rewrite run_cons_responses, run_cons_world.
      destruct (IH w) as (Hw & Hr & Hall). simpl.
      split; [done|]. split; [done|]. by constructor.
    + simpl List.filter at 1 2. rewrite !run_cons_responses, !run_cons_world.
      destruct (IH (serve catalog (PostOrders body generated) w).2)
        as (Hw & Hr & Hall).
      simpl List.filter. simpl serve.
      pose proof (submission_not_200 catalog body generated w) as Hne.
      rewrite bool_decide_eq_false_2 by done. simpl.
      split; [done|]. split; [by f_equal|]. by constructor.
Qed.

(** ** The log and the table, framed *)

Lemma serve_logged catalog r w :
  logged (serve catalog r w).2
  = (logged w ++ logged (serve catalog r initial).2)%list.
Proof.
  destruct r as [|body generated]; simpl; [by rewrite app_nil_r|].
  destruct (postOrdersVia_cases catalog body generated w)
    as [(e & He & ->)|[(o & Ho & Hcat & ->)|(o & Ho & Hcat & ->)]]; simpl.
  - rewrite (postOrdersVia_undecodable _ _ _ _ _ He). simpl.
    by rewrite app_nil_r.
  - by rewrite (postOrdersVia_unresolved _ _ _ _ _ Ho Hcat).
  - by rewrite (postOrdersVia_created _ _ _ _ _ Ho Hcat).
Qed.

Lemma serve_logged_length catalog r w :
  length (logged (serve catalog r initial).2)
  = if logs (serve catalog r w).1 then 1 else 0.
Proof.
  rewrite (serve_response_stateless catalog r w initial).
  destruct r as [|body generated]; [done|]. simpl.
  destruct (postOrdersVia_cases catalog body generated initial)
    as [(e & He & ->)|[(o & Ho & Hcat & ->)|(o & Ho & Hcat & ->)]]; done.
Qed.

Lemma run_logged catalog rs : ∀ w,
  logged (run catalog rs w).2
  = (logged w ++ logged (run catalog rs initial).2)%list.
Proof.
  induction rs as [|r rs IH]; intros w.
  - simpl. by rewrite app_nil_r.
  - rewrite !run_cons_world.
    rewrite (IH (serve catalog r w).2), (IH (serve catalog r initial).2).
    by rewrite (serve_logged catalog r w), <- app_assoc.
Qed.

(** The lines the handlers themselves write with [log.Printf]
    (main.go:62 and main.go:65) are only ever added, and do not depend
    on the state: after a run they are the lines before followed by the
    lines the same run writes from the initial state, one for each
    response with code 201 or 500 and none for the others. *)
Theorem log_appended (catalog : string) (rs : list Request) (w : World) :
  logged (run catalog rs w).2
  = (logged w ++ logged (run catalog rs initial).2)%list
  ∧ length (logged (run catalog rs initial).2)
    = length (List.filter logs (run catalog rs w).1).
Proof.
  split; [apply run_logged|].
  revert w. induction rs as [|r rs IH]; intros w; [done|].
  rewrite run_cons_world, run_cons_responses.
  rewrite (run_logged catalog rs (serve catalog r initial).2).
  rewrite length_app, (serve_logged_length catalog r w).
  rewrite (IH (serve catalog r w).2).
  simpl List.filter. by destruct (logs (serve catalog r w).1).
Qed.

Lemma serve_orders_frame catalog r w :
  orders (serve catalog r w).2 = orders (serve catalog r initial).2 ∪ orders w.
Proof.
  destruct r as [|body generated]; simpl; [by rewrite (left_id_L ∅ (∪))|].
  destruct (postOrdersVia_cases catalog body generated w)
    as [(e & He & ->)|[(o & Ho & Hcat & ->)|(o & Ho & Hcat & ->)]]; simpl.
  - rewrite (postOrdersVia_undecodable _ _ _ _ _ He). simpl.
    by rewrite (left_id_L ∅ (∪)).
  - rewrite (postOrdersVia_unresolved _ _ _ _ _ Ho Hcat). simpl.
    by rewrite (left_id_L ∅ (∪)).
  - rewrite (postOrdersVia_created _ _ _ _ _ Ho Hcat). simpl.
    by rewrite <- insert_union_l, (left_id_L ∅ (∪)).
Qed.

(** What a run does to the table does not depend on what the table
    held: the table after is the table the same run builds from the
    empty one, laid over the table before (where both have a key, the
    run's entry stands). *)
Theorem table_overlaid (catalog : string) (rs : list Request) (w : World) :
  orders (run catalog rs w).2
  = orders (run catalog rs initial).2 ∪ orders w.
Proof.
  revert w. induction rs as [|r rs IH]; intros w.
  - simpl. by rewrite (left_id_L ∅ (∪)).
  - rewrite !run_cons_world.
    rewrite (IH (serve catalog r w).2), (IH (serve catalog r initial).2).
    rewrite (serve_orders_frame catalog r w).
    by rewrite (assoc_L (∪)).
Qed.

(** The keys of the table after a run are the keys before and the
    identifiers the 201 responses carry; so the table never loses a key
    and gains at most one entry for each 201 response. *)
Theorem table_keys (catalog : string) (rs : list Request) (w : World) :
  dom (orders (run catalog rs w).2)
  = list_to_set (assigned (run catalog rs w).1) ∪ dom (orders w)
  ∧ (size (orders w) ≤ size (orders (run catalog rs w).2))%nat
  ∧ (size (orders (run catalog rs w).2)
     ≤ size (orders w) + length (assigned (run catalog rs w).1))%nat.
Proof.
  revert w. induction rs as [|r rs IH]; intros w.
  - simpl. split; [by rewrite (left_id_L ∅ (∪))|]. lia.
  - rewrite run_cons_responses, run_cons_world.
    destruct (IH (serve catalog r w).2) as (Hdom & Hge & Hle).
    destruct (serve_table catalog r w)
      as [[Heq Hne]|(b & g & d & _ & Hresp & Heq)].
    + rewrite (assigned_not_created _ _ Hne), Hdom, Heq.
      rewrite Heq in Hge, Hle. done.
    + rewrite Hresp, assigned_cons, Hdom. simpl.
      rewrite Heq, dom_insert_L. rewrite Heq, map_size_insert in Hge, Hle.
      split.
      * by rewrite (comm_L (∪) {[g.1]} (list_to_set _)), (assoc_L (∪)).
      * destruct (orders w !! g.1); simpl in *; lia.
Qed.

(** Last writer wins: after a run, [get] gives for an identifier the
    order of the last 201 response that carries it, and what it gave
    before the run when no response carries it. *)
Theorem last_writer_wins
    (catalog : string) (rs : list Request) (w : World) (id : string) :
  get id (run catalog rs w).2
  = match lastAssigned id (run catalog rs w).1 with
    | Some o => Some o
    | None => get id w
    end.
Proof.
  revert w. induction rs as [|r rs IH]; intros w; [done|].
  rewrite run_cons_responses, run_cons_world, IH.
  unfold lastAssigned. simpl flat_map. rewrite last_app.
  destruct (last (flat_map _ (run catalog rs (serve catalog r w).2).1));
    [done|].
  unfold get.
  destruct (serve_table catalog r w)
    as [[Heq Hne]|(b & g & d & _ & Hresp & Heq)]; rewrite Heq.
  - destruct (http.Body (serve catalog r w).1); try done.
    rewrite decide_False; [done|]. by intros [? _].
  - rewrite Hresp. simpl. destruct (decide (g.1 = id)) as [<-|Hne].
    + rewrite decide_True by done. simpl. by rewrite lookup_insert_eq.
    + rewrite decide_False by (by intros [_ ?]). simpl.
      by rewrite lookup_insert_ne.
Qed.

(** Every order is stored under its own identifier: a table whose
    entries have their key in the [ID] field keeps that property
    through any run.  The empty table has it. *)
Theorem key_is_order_id
    (catalog : string) (rs : list Request) (w : World) :
  (∀ id o, get id w = Some o → ID o = id) →
  ∀ id o, get id (run catalog rs w).2 = Some o → ID o = id.
Proof.
  revert w. induction rs as [|r rs IH]; intros w Hw id o; [apply Hw|].
  rewrite run_cons_world. apply IH. clear id o. intros id o. unfold get.
  destruct (serve_table catalog r w)
    as [[-> _]|(b & g & d & _ & _ & ->)]; [apply Hw|].
  rewrite lookup_insert. case_decide; [|apply Hw].
  by intros [= <-].
Qed.

Lemma key_is_order_id_witness :
  let w := (run catalogName
              [PostOrders withOwnIDAndStatus someUUID; GetHealth;
               PostOrders oneItem otherUUID] initial).2 in
  let o := mkOrder someUUID.1 (Some ["item-1"; "item-2"]) "received" in
  get someUUID.1 w = Some o ∧ ID o = someUUID.1.
Proof.
  intros w o. split; [reflexivity|].
  apply (key_is_order_id catalogName
           [PostOrders withOwnIDAndStatus someUUID; GetHealth;
            PostOrders oneItem otherUUID] initial).
  - intros id o' H. unfold get in H. simpl in H.
    rewrite lookup_empty in H. discriminate H.
  - reflexivity.
Defined.

(** ** The registration goroutine *)

Lemma run_responses_stateless catalog rs : ∀ w w',
  (run catalog rs w).1 = (run catalog rs w').1.
Proof.
  induction rs as [|r rs IH]; intros w w'; [done|].
  rewrite !run_cons_responses. f_equal; [apply serve_response_stateless|].
  apply IH.
Qed.

Lemma run_orders_only catalog rs : ∀ w w',
  orders w = orders w' →
  orders (run catalog rs w).2 = orders (run catalog rs w').2.
Proof.
  induction rs as [|r rs IH]; intros w w' H; [done|].
  rewrite !run_cons_world. apply IH.
  rewrite (serve_orders_frame catalog r w), (serve_orders_frame catalog r w').
  by rewrite H.
Qed.

(** [registerServiceWithConsul] only logs.  Run at whatever point
    between the requests, it changes no response and no entry of the
    table: responses and table are those of the run without it, and the
    log is that of the run with the registration line put in where the
    registration ran. *)
Theorem registration_only_logs
    (catalog : string) (rs1 rs2 : list Request) (w : World) :
  (runWithRegistration catalog rs1 rs2 w).1 = (run catalog (rs1 ++ rs2) w).1
  ∧ orders (runWithRegistration catalog rs1 rs2 w).2
    = orders (run catalog (rs1 ++ rs2) w).2
  ∧ logged (runWithRegistration catalog rs1 rs2 w).2
    = (logged (run catalog rs1 w).2
       ++ ["Service registration skipped (no consul dependency)"]
       ++ logged (run catalog rs2 initial).2)%list
  ∧ logged (runWithRegistration catalog rs1 rs2 w).2
    ≡ₚ "Service registration skipped (no consul dependency)"
       :: logged (run catalog (rs1 ++ rs2) w).2.
Proof.
  assert (∀ w1, (registerServiceWithConsul w1).2
                = mkWorld (orders w1)
                    (logged w1
                     ++ ["Service registration skipped (no consul dependency)"]))
    as Hreg by done.
  assert ((runWithRegistration catalog rs1 rs2 w).1
          = ((run catalog rs1 w).1
             ++ (run catalog rs2
                   (registerServiceWithConsul (run catalog rs1 w).2).2).1)%list
          ∧ (runWithRegistration catalog rs1 rs2 w).2
            = (run catalog rs2
                 (registerServiceWithConsul (run catalog rs1 w).2).2).2)
    as [Hresp Hworld].
  { unfold runWithRegistration, mbind, M_bind.
    destruct (run catalog rs1 w) as [resps1 w1]. simpl.
    by destruct (run catalog rs2 _). }
  rewrite Hresp, Hworld, run_app_responses, run_app_world, Hreg.
  split; [|split; [|split]].
  - f_equal. apply run_responses_stateless.
  - by apply run_orders_only.
  - rewrite run_logged. simpl. by rewrite <- app_assoc.
  - rewrite run_logged, (run_logged catalog rs2 (run catalog rs1 w).2). simpl.
    rewrite <- app_assoc. simpl.
    by rewrite <- Permutation_middle.
Qed.

(** ** Which payloads are accepted *)

Lemma storeElems_ok vs : ∀ old,
  (storeElems old vs).2 = None ↔ forallb isStringOrNull vs = true.
Proof.
  induction vs as [|v vs IH]; intros old; [done|].
  simpl. specialize (IH (tail old)).
  destruct (storeElems (tail old) vs) as [xs es]. simpl in IH.
  destruct v; simpl; try done; split; try done.
Qed.

Lemma member_saved_Some st m e :
  saved st = Some e → saved (member st m) = Some e.
Proof.
  destruct st as [id items sp status sv]. simpl. intros ->.
  destruct m as [name v]. unfold member.
  destruct (fieldOf name) as [[]|]; [| | |done].
  - by destruct v.
  - unfold storeItems. destruct v as [| | | |[|v vs]|]; try done.
    by destruct (storeElems _ (v :: vs)).
  - by destruct v.
Qed.

Lemma member_saved_None st m :
  saved st = None →
  saved (member st m) = None ↔ wellTyped m = true.
Proof.
  destruct st as [id items sp status sv]. simpl. intros ->.
  destruct m as [name v]. unfold member, wellTyped. simpl fst. simpl snd.
  destruct (fieldOf name) as [[]|]; [| | |done].
  - by destruct v.
  - unfold storeItems. destruct v as [| | | |[|v vs]|]; try done.
    pose proof (storeElems_ok (v :: vs) (default [] items ++ sp)) as Hok.
    simpl sItems. simpl spare.
    by destruct (storeElems _ (v :: vs)) as [xs [e|]].
  - by destruct v.
Qed.

Lemma members_saved ms : ∀ st,
  saved (members ms st) = None
  ↔ saved st = None ∧ forallb wellTyped ms = true.
Proof.
  induction ms as [|m ms IH]; intros st.
  - simpl. split; [done|by intros [? _]].
  - rewrite members_cons, IH. simpl. rewrite andb_true_iff.
    destruct (saved st) as [e|] eqn:He.
    + rewrite (member_saved_Some st m e He). split; by intros [? ?].
    + rewrite (member_saved_None st m He). split.
      * by intros [? ?].
      * by intros [_ [? ?]].
Qed.

Lemma Decode_acceptable body :
  (acceptable body = true ∧ ∃ decoded, Decode body = inr decoded)
  ∨ (acceptable body = false ∧ ∃ err, Decode body = inl err).
Proof.
  destruct body as [err|[| | | | |ms]]; simpl; eauto.
  unfold finish.
  pose proof (members_saved ms start) as H.
  destruct (saved (members ms start)) as [e|].
  - right. split; [|eauto].
    destruct (forallb wellTyped ms); [|done].
    assert (Some e = None) as Hno by (by apply H). discriminate Hno.
  - left. split; [|eauto]. by apply H.
Qed.

(** The type check of the decoder is all the validation there is: the
    registered handler answers 201 exactly for the body [null] and for
    an object in which "id" and "status", where given, are strings or
    null and "item_ids", where given, is null or an array of strings
    and nulls; every other body is answered 400 and leaves the state as
    it was. *)
Theorem accepted_iff_well_typed
    (body : Input) (generated : uuid.Result) (w : World) :
  http.StatusCode (postOrders body generated w).1
  = (if acceptable body then http.StatusCreated else http.StatusBadRequest)
  ∧ (acceptable body = false → (postOrders body generated w).2 = w).
Proof.
  change (postOrders body generated w)
    with (postOrdersVia catalogName body generated w).
  destruct (Decode_acceptable body) as [[-> [d Hd]]|[-> [e He]]].
  - by rewrite (postOrdersVia_created _ _ _ _ _ Hd eq_refl).
  - by rewrite (postOrdersVia_undecodable _ _ _ _ _ He).
Qed.

Lemma accepted_iff_well_typed_witness :
  (postOrders (Valid (JObject [("item_ids", JString "item-1")]))
     someUUID initial).2 = initial.
Proof.
  exact (proj2 (accepted_iff_well_typed
                  (Valid (JObject [("item_ids", JString "item-1")]))
                  someUUID initial) eq_refl).
Defined.

(** ** The handler as registered *)
(** ** The handler as registered *)

(** The branch for a catalog that cannot be found is dead in the
    handler as [main] registers it: [findService] is asked for the one
    name it knows.  Whatever the body, the generated identifier and the
    state, the handler answers 201 or 400, never 500, and the line it
    writes with [log.Printf], when it writes one, is the
    "Found food-catalog-service" line. *)
Theorem registered_handler_finds_catalog
    (body : Input) (generated : uuid.Result) (w : World) :
  let resp := (postOrders body generated w).1 in
  (http.StatusCode resp = http.StatusCreated
   ∨ http.StatusCode resp = http.StatusBadRequest)
  ∧ http.StatusCode resp ≠ http.StatusInternalServerError
  ∧ logged (postOrders body generated w).2
    = (logged w ++ if decide (http.StatusCode resp = http.StatusCreated)
                   then [foundLine] else [])%list.
Proof.
  change (postOrders body generated w)
    with (postOrdersVia catalogName body generated w).
  destruct (postOrdersVia_cases catalogName body generated w)
    as [(e & _ & ->)|[(o & _ & Hne & _)|(o & _ & _ & ->)]]; simpl.
  - split; [by right|]. split; [done|]. by rewrite app_nil_r.
  - done.
  - split; [by left|]. by split.
Qed.

(** ** The validation gate *)

Lemma lacking_acceptable body :
  lacksItems body = true → acceptable body = idAndStatusFit body.
Proof.
  destruct body as [err|[| | | | |ms]]; try done. simpl.
  induction ms as [|[name v] ms IH]; [done|].
  simpl. intros Hall. apply andb_prop in Hall as [Hm Hms].
  rewrite (IH Hms). f_equal.
  unfold wellTyped, selects in *. simpl in *.
  destruct (fieldOf name) as [[]|]; try done.
  by destruct v.
Qed.

(** C1, amended.  A body that [Decode] rejects is answered with 400 and
    the text of the decoding error, and leaves the state as it was.  A
    missing or null item list is no ground for rejection: an object
    whose item list is missing or null, and whose "id" and "status",
    where given, are strings or null, is answered with 201, and the
    order with the generated identifier, a nil item list and the status
    "received" is stored under that identifier; such an object is
    answered with 400 only when its "id" or "status" is of another JSON
    type, and then nothing is stored. *)
Theorem only_undecodable_rejected
    (catalog : string) (body : Input) (generated : uuid.Result) (w : World) :
  (∀ err, Decode body = inl err →
     postOrdersVia catalog body generated w
     = (http.Error (Error err) http.StatusBadRequest, w))
  ∧ (lacksItems body = true → idAndStatusFit body = true →
     (postOrders body generated w).1
     = created (mkOrder generated.1 None "received")
     ∧ orders (postOrders body generated w).2
       = <[generated.1 := mkOrder generated.1 None "received"]> (orders w)
     ∧ get generated.1 (postOrders body generated w).2
       = Some (mkOrder generated.1 None "received"))
  ∧ (lacksItems body = true → idAndStatusFit body = false →
     http.StatusCode (postOrders body generated w).1 = http.StatusBadRequest
     ∧ (postOrders body generated w).2 = w).
Proof.
  split; [|split].
  - intros err H. by apply postOrdersVia_undecodable.
  - intros Hlack Hfit.
    destruct (Decode_acceptable body) as [[_ [d Hd]]|[Hno _]].
    + pose proof (Decode_lacking _ _ Hlack Hd) as Hnil.
      change (postOrders body generated w)
        with (postOrdersVia catalogName body generated w).
      rewrite (postOrdersVia_created _ _ _ _ _ Hd eq_refl).
      unfold received, setStatus, setID. simpl. rewrite Hnil.
      split; [done|]. split; [done|]. apply lookup_insert_eq.
    + rewrite (lacking_acceptable _ Hlack) in Hno. congruence.
  - intros Hlack Hfit.
    destruct (Decode_acceptable body) as [[Hyes _]|[_ [e He]]].
    + rewrite (lacking_acceptable _ Hlack) in Hyes. congruence.
    + change (postOrders body generated w)
        with (postOrdersVia catalogName body generated w).
      by rewrite (postOrdersVia_undecodable _ _ _ _ _ He).
Qed.

Lemma only_undecodable_rejected_witness :
  postOrders (Valid (JArray [])) someUUID initial
  = (http.Error "json: cannot unmarshal array into Go value of type main.Order"
       http.StatusBadRequest, initial)
  ∧ ((postOrders readmeBody someUUID initial).1
     = created (mkOrder someUUID.1 None "received")
     ∧ orders (postOrders readmeBody someUUID initial).2
       = <[someUUID.1 := mkOrder someUUID.1 None "received"]> (orders initial)
     ∧ get someUUID.1 (postOrders readmeBody someUUID initial).2
       = Some (mkOrder someUUID.1 None "received"))
  ∧ (http.StatusCode
       (postOrders (Valid (JObject [("id", JNumber "7")])) someUUID initial).1
     = http.StatusBadRequest
     ∧ (postOrders (Valid (JObject [("id", JNumber "7")])) someUUID initial).2
       = initial).
Proof.
  split; [|split].
  - exact (proj1 (only_undecodable_rejected
                    catalogName (Valid (JArray [])) someUUID initial)
             _ eq_refl).
  - exact (proj1 (proj2 (only_undecodable_rejected
                           catalogName readmeBody someUUID initial))
             eq_refl eq_refl).
  - exact (proj2 (proj2 (only_undecodable_rejected
                           catalogName (Valid (JObject [("id", JNumber "7")]))
                           someUUID initial))
             eq_refl eq_refl).
Defined.

(** ** Identifiers of submissions handled at the same time *)

Lemma size_list_to_set_le (l : list string) :
  (size (list_to_set l : gset string) ≤ length l)%nat.
Proof.
  induction l as [|x l IH]; [done|].
  rewrite list_to_set_cons, size_union_alt, size_singleton. simpl.
  assert (size (list_to_set l ∖ {[x]} : gset string)
          ≤ size (list_to_set l : gset string))%nat
    by (apply subseteq_size, subseteq_difference_l; done).
  lia.
Qed.

Lemma size_list_to_set_NoDup (l : list string) :
  size (list_to_set l : gset string) = length l → NoDup l.
Proof.
  induction l as [|x l IH]; [constructor|].
  rewrite list_to_set_cons. simpl. intros Hsize.
  pose proof (size_list_to_set_le l) as Hle.
  destruct (decide (x ∈ l)) as [Hin|Hnin].
  - assert ({[x]} ∪ list_to_set l = (list_to_set l : gset string)) as Heq.
    { apply subseteq_union_1_L, singleton_subseteq_l.
      by apply elem_of_list_to_set. }
    rewrite Heq in Hsize. lia.
  - rewrite size_union, size_singleton in Hsize.
    + apply NoDup_cons. split; [done|]. apply IH. lia.
    + apply disjoint_singleton_l. by rewrite elem_of_list_to_set.
Qed.

(** The identifier a handler assigns is the one generated for its own
    request, whatever state the handler runs in. *)
Lemma answers_all_created catalog rws :
  allCreated (answers catalog rws) →
  assigned (answers catalog rws) = generatedIDs rws.*1
  ∧ length (generatedIDs rws.*1) = length rws.
Proof.
  induction rws as [|[r w] rws IH]; [done|].
  unfold answers. rewrite fmap_cons. intros Hall.
  apply Forall_cons in Hall as [Hcode Hall]. simpl in Hcode.
  destruct (IH Hall) as [Has Hlen].
  destruct (serve_created _ _ _ Hcode) as (-> & b & g & d & -> & Hdec).
  rewrite assigned_cons. simpl http.Body. simpl http.StatusCode.
  rewrite (postOrdersVia_created catalogName b g w d Hdec eq_refl).
  simpl. fold (answers catalogName rws). rewrite Has.
  split; [done|]. f_equal. exact Hlen.
Qed.

Example two_concurrent_orders_one_blank_id :
  answers catalogName
    [(PostOrders twoItems failedUUID, initial);
     (PostOrders oneItem failedUUID, initial)]
  = [created (mkOrder "" (Some ["item-1"; "item-2"]) "received");
     created (mkOrder "" (Some ["item-3"]) "received")].
Proof. reflexivity. Qed.

(** C4, as stated, fails.  Two submissions handled at the same time,
    for both of which [GenerateUUID] fails, both succeed and are both
    assigned the empty identifier. *)
Lemma uniqueAmongConcurrent_fails_on_failed_generation :
  ¬ uniqueAmongConcurrent catalogName
      [(PostOrders twoItems failedUUID, initial);
       (PostOrders oneItem failedUUID, initial)] [].
Proof.
  unfold uniqueAmongConcurrent. intros H.
  destruct H as [_ Hblank].
  - by repeat constructor.
  - apply Forall_cons in Hblank as [[Hne _] _]. by apply Hne.
Qed.

(** C4, amended.  When N submissions handled at the same time all
    succeed, each is assigned the identifier [GenerateUUID] returned to
    it, whatever state its handler ran in.  So the identifiers assigned
    form a set of N members, none empty and none among those assigned
    earlier, exactly when the identifiers the generator returned are
    pairwise distinct, non-empty and not among those assigned
    earlier. *)
Theorem concurrent_ids_are_generated_ids
    (catalog : string) (rws : list (Request * World))
    (earlier : list string) :
  allCreated (answers catalog rws) →
  assigned (answers catalog rws) = generatedIDs rws.*1
  ∧ ((size (list_to_set (assigned (answers catalog rws)) : gset string)
      = length rws
      ∧ Forall (λ id, id ≠ "" ∧ id ∉ earlier)
          (assigned (answers catalog rws)))
     ↔ (NoDup (generatedIDs rws.*1)
        ∧ Forall (λ id, id ≠ "" ∧ id ∉ earlier) (generatedIDs rws.*1))).
Proof.
  intros Hall. destruct (answers_all_created _ _ Hall) as [Has Hlen].
  split; [done|]. rewrite Has, <- Hlen. split.
  - intros [Hsize Hok]. split; [|done]. by apply size_list_to_set_NoDup.
  - intros [Hnd Hok]. split; [|done]. by apply size_list_to_set.
Qed.

Lemma concurrent_ids_are_generated_ids_witness :
  let rws := [(PostOrders twoItems someUUID, initial);
              (PostOrders oneItem otherUUID, initial)] in
  let earlier := ["0b6f2c3a-9d1e-4f70-8a55-2c1d3e4f5a6b"] in
  assigned (answers catalogName rws) = [someUUID.1; otherUUID.1]
  ∧ size (list_to_set (assigned (answers catalogName rws)) : gset string) = 2
  ∧ Forall (λ id, id ≠ "" ∧ id ∉ earlier) (assigned (answers catalogName rws)).
Proof.
  intros rws earlier.
  assert (allCreated (answers catalogName rws)) as Hall
    by (by repeat constructor).
  destruct (concurrent_ids_are_generated_ids catalogName rws earlier Hall)
    as [Hids Hiff].
  split; [exact Hids|]. apply Hiff. split.
  - apply NoDup_cons. split; [|apply NoDup_singleton].
    intros Hin. apply list_elem_of_singleton in Hin. discriminate Hin.
  - repeat constructor; try discriminate;
      intros Hin; apply list_elem_of_singleton in Hin; discriminate Hin.
Defined.
